(** * Kubernetes job tasks: [prefect/tasks/kubernetes/job.py]

    A shallow embedding of the six task classes of the module
    ([CreateNamespacedJob], [DeleteNamespacedJob], [ListNamespacedJob],
    [PatchNamespacedJob], [ReadNamespacedJob], [ReplaceNamespacedJob]) and
    the properties of their [run] methods.

    Python dictionaries are finite maps with string keys ([gmap string
    value]); the attributes of [self] are a record that every [run] threads
    through a small state-and-exception monad.  The monad also keeps a log
    of what a run does, in program order: every call that leaves the module
    (the secret lookup, the two configuration loaders, the Batch API call)
    and every assignment to, or in-place update of, an attribute of
    [self]. *)

From stdpp Require Import gmap strings list fin_maps.
From Stdlib Require Import ZArith Sorted.

Local Open Scope string_scope.
Local Open Scope list_scope.

(** ** Data *)

(** The values found in a job specification or in the extra keyword
    arguments: JSON-like Python objects.  A nested dictionary is a value
    like any other; the top-level merge never looks inside it. *)
#[local] Unset Elimination Schemes.
Inductive value : Type :=
| VNone
| VBool (b : bool)
| VInt (z : Z)
| VStr (s : string)
| VList (l : list value)
| VDict (kv : list (string * value)).
#[local] Set Elimination Schemes.

(** A Python [dict] with string keys, compared by content as Python's [==]
    does (insertion order plays no part in any of the methods below). *)
Abbreviation dict := (gmap string value).

(** [d.update(r)]: every key of [r] is set in [d] to [r]'s value, the other
    keys of [d] stay.  stdpp's union is left-biased, hence [r ∪ d]. *)
Definition update (d r : dict) : dict := r ∪ d.

(** Python truthiness of the three kinds of object that the methods test:
    a dict is false when empty, a string when empty, [None] always. *)
Definition dict_truthy (d : dict) : bool := negb (Nat.eqb (size d) 0).

Definition str_truthy (s : string) : bool :=
  match s with
  | EmptyString => false
  | String _ _ => true
  end.

Definition opt_truthy (o : option string) : bool :=
  match o with
  | None => false
  | Some s => str_truthy s
  end.

(** [x or {}] for a dict [x]. *)
Definition or_empty (x : dict) : dict := if dict_truthy x then x else ∅.

(** The object that [self.client] holds: [client.BatchV1Api(client.ApiClient
    (configuration))] with [configuration.api_key["authorization"]] set, or
    the argument-less [client.BatchV1Api()] that uses whatever configuration
    the loaders of [kubernetes.config] installed. *)
Inductive api_client : Type :=
| BatchV1Api_with (authorization : string)
| BatchV1Api_default.

(** The attributes of a task instance that this module reads or writes.
    [self_name] is Python's [Optional[str]]; a class that has no [body]
    (delete, list, read) never touches [self_body]; [self_client] is [None]
    until a run assigns it. *)
Record task : Type := Task {
  self_name : option string;
  self_body : dict;
  self_namespace : string;
  self_kube_kwargs : dict;
  self_kubernetes_api_key_secret : string;
  self_client : option api_client
}.

Definition set_body (b : dict) (t : task) : task :=
  {| self_name := self_name t; self_body := b;
     self_namespace := self_namespace t;
     self_kube_kwargs := self_kube_kwargs t;
     self_kubernetes_api_key_secret := self_kubernetes_api_key_secret t;
     self_client := self_client t |}.

Definition set_kube_kwargs (k : dict) (t : task) : task :=
  {| self_name := self_name t; self_body := self_body t;
     self_namespace := self_namespace t;
     self_kube_kwargs := k;
     self_kubernetes_api_key_secret := self_kubernetes_api_key_secret t;
     self_client := self_client t |}.

Definition set_client (c : api_client) (t : task) : task :=
  {| self_name := self_name t; self_body := self_body t;
     self_namespace := self_namespace t;
     self_kube_kwargs := self_kube_kwargs t;
     self_kubernetes_api_key_secret := self_kubernetes_api_key_secret t;
     self_client := Some c |}.

(** The six methods of [BatchV1Api] that the tasks call. *)
Inductive api_method : Type :=
| create_namespaced_job
| delete_namespaced_job
| list_namespaced_job
| patch_namespaced_job
| read_namespaced_job
| replace_namespaced_job.

(** One call expression [self.client.<method>(name=.., namespace=.., body=..,
    **kube_kwargs)] as it is written: the explicit keywords ([None] for a
    keyword the call does not pass) and the mapping behind the double star.
    Binding the keywords to the callee's parameters, with Python's rejection
    of a repeated or a missing one, is the callee's side and belongs to
    [batch_api] below. *)
Record api_call : Type := ApiCall {
  call_method : api_method;
  call_on : api_client;
  kw_name : option (option string);
  kw_namespace : string;
  kw_body : option dict;
  star_kwargs : dict
}.

(** What the client library hands back; the tasks never look inside. *)
Inductive response : Type :=
| V1Job (repr : value)
| V1JobList (items : list value)
| V1Status (repr : value).

Inductive exn : Type :=
| ValueError (msg : string)
| ConfigException (msg : string)
| ApiException (status : Z) (reason : string)
| OtherError (cls msg : string).

(** [except config.config_exception.ConfigException]. *)
Definition is_ConfigException (e : exn) : bool :=
  match e with
  | ConfigException _ => true
  | _ => false
  end.

(** Everything outside the module that a run consults.  [secrets] is
    [Secret(name).get()] ([prefect.client.Secret] is not in src; the spec
    gives it as [get_secret(name) -> string | absent]); the two loaders
    either succeed or raise; [batch_api] answers a call with a response or
    raises. *)
Record world : Type := World {
  secrets : string -> option string;
  incluster_config : option exn;
  kube_config : option exn;
  batch_api : api_call -> exn + response
}.

(** ** The log of a run *)

Inductive event : Type :=
| EvSecretGet (name : string)
| EvLoadIncluster
| EvLoadKubeConfig
| EvSetClient (c : api_client)
| EvUpdateBody (r : dict)
| EvUpdateKubeKwargs (r : dict)
| EvCall (c : api_call).

(** ** The monad: state ([self] and the log) and exceptions *)

Record machine : Type := Machine { self : task; log : list event }.

Inductive outcome (A : Type) : Type :=
| Returned (a : A)
| Raised (e : exn).
Arguments Returned {A} a.
Arguments Raised {A} e.

Definition M (A : Type) : Type := machine -> outcome A * machine.

Definition ret {A} (a : A) : M A := fun s => (Returned a, s).

Definition bind {A B} (m : M A) (k : A -> M B) : M B :=
  fun s =>
    match m s with
    | (Returned a, s') => k a s'
    | (Raised e, s') => (Raised e, s')
    end.

Definition raise {A} (e : exn) : M A := fun s => (Raised e, s).

(** [try: m  except <catches>: h] *)
Definition try_except {A} (m : M A) (catches : exn -> bool) (h : M A) : M A :=
  fun s =>
    match m s with
    | (Returned a, s') => (Returned a, s')
    | (Raised e, s') => if catches e then h s' else (Raised e, s')
    end.

Definition emit (ev : event) : M unit :=
  fun s => (Returned tt, {| self := self s; log := log s ++ [ev] |}).

Definition get_self : M task := fun s => (Returned (self s), s).

Definition modify_self (f : task -> task) : M unit :=
  fun s => (Returned tt, {| self := f (self s); log := log s |}).

(** stdpp's monad notations: [x ← m; k] and [m ;; k]. *)
#[global] Instance M_ret : MRet M := @ret.
#[global] Instance M_bind : MBind M := fun A B k m => bind m k.

(** ** The statements the six methods are made of *)

(** [Secret(name).get()] *)
Definition Secret_get (w : world) (name : string) : M (option string) :=
  emit (EvSecretGet name) ;; ret (secrets w name).

(** [config.load_incluster_config()] *)
Definition load_incluster_config (w : world) : M unit :=
  emit EvLoadIncluster ;;
  match incluster_config w with
  | None => ret tt
  | Some e => raise e
  end.

(** [config.load_kube_config()] *)
Definition load_kube_config (w : world) : M unit :=
  emit EvLoadKubeConfig ;;
  match kube_config w with
  | None => ret tt
  | Some e => raise e
  end.

(** [self.client = c] *)
Definition assign_client (c : api_client) : M unit :=
  emit (EvSetClient c) ;; modify_self (set_client c).

(** [self.body.update(r)] *)
Definition body_update (r : dict) : M unit :=
  emit (EvUpdateBody r) ;;
  modify_self (fun t => set_body (update (self_body t) r) t).

(** [self.kube_kwargs.update(r)] *)
Definition kube_kwargs_update (r : dict) : M unit :=
  emit (EvUpdateKubeKwargs r) ;;
  modify_self (fun t => set_kube_kwargs (update (self_kube_kwargs t) r) t).

(** [self.client.<method>(...)]: the call is made on the client that
    [self.client] holds at that point. *)
Definition invoke (w : world) (m : api_method) (name : option (option string))
    (namespace : string) (body : option dict) (kwargs : dict) : M response :=
  t ← get_self;
  match self_client t with
  | None => raise (OtherError "AttributeError" "client")
  | Some c =>
      let call := {| call_method := m; call_on := c; kw_name := name;
                     kw_namespace := namespace; kw_body := body;
                     star_kwargs := kwargs |} in
      emit (EvCall call) ;;
      match batch_api w call with
      | inl e => raise e
      | inr r => ret r
      end
  end.

(** The [else] branch of the block below (lines 92-97): try the in-cluster
    loader, fall back to the kube-config loader on [ConfigException], then
    build the default client. *)
Definition connect_ambient (w : world) : M unit :=
  try_except (load_incluster_config w) is_ConfigException
             (load_kube_config w) ;;
  assign_client BatchV1Api_default.

(** The block that follows the checks in every [run] (lines 85-97, and the
    same text in the other five classes): look the secret up; a truthy key
    (neither [None] nor the empty string) goes into the configuration of a
    client of its own, anything else takes the [else] branch. *)
Definition connect (w : world) (kubernetes_api_key_secret : string) : M unit :=
  kubernetes_api_key ← Secret_get w kubernetes_api_key_secret;
  match kubernetes_api_key with
  | Some key =>
      if str_truthy key then assign_client (BatchV1Api_with key)
      else connect_ambient w
  | None => connect_ambient w
  end.

(** Modelled from the spec: the decorator [defaults_from_attrs] of
    [prefect.utilities.tasks] is not in src.  The spec describes it as the
    injection of the task's configured defaults into a run: an argument
    that the caller leaves out ([None] here) takes the value of the
    attribute of the same name, an argument that the caller gives (a value
    of the type that the signature declares) is used as given. *)
Definition default_from_attr {A} (arg : option A) (attr : A) : A :=
  match arg with
  | Some a => a
  | None => attr
  end.

(** Modelled from the spec: the same injection for [name], the one argument
    whose attribute may itself be [None]. *)
Definition default_name (arg : option string) (attr : option string)
  : option string :=
  match arg with
  | Some a => Some a
  | None => attr
  end.

(** ** The six classes

    Each [init] is the body of the class's [__init__]: its assignments to
    [self] with the defaults of the signature ([None] stands for an argument
    left out).  The call to the constructor of the base class that ends every
    [__init__] goes to [prefect.Task], which is not in src, and is not
    modelled.  Each [run] is the decorated method: the decorator's defaults
    first, the body of the method after. *)

Definition default_namespace : string := "default".
Definition default_secret : string := "KUBERNETES_API_KEY".

Module CreateNamespacedJob.

Definition init (body : option dict) (namespace : option string)
    (kube_kwargs : option dict) (kubernetes_api_key_secret : option string)
  : task :=
  {| self_name := None;
     self_body := or_empty (default_from_attr body ∅);
     self_namespace := default_from_attr namespace default_namespace;
     self_kube_kwargs := or_empty (default_from_attr kube_kwargs ∅);
     self_kubernetes_api_key_secret :=
       default_from_attr kubernetes_api_key_secret default_secret;
     self_client := None |}.

Definition run (w : world) (body : option dict) (namespace : option string)
    (kube_kwargs : option dict) (kubernetes_api_key_secret : option string)
  : M (option response) :=
  t ← get_self;
  let body := default_from_attr body (self_body t) in
  let namespace := default_from_attr namespace (self_namespace t) in
  let kube_kwargs := default_from_attr kube_kwargs (self_kube_kwargs t) in
  let kubernetes_api_key_secret :=
    default_from_attr kubernetes_api_key_secret
                      (self_kubernetes_api_key_secret t) in
  if negb (dict_truthy body) then
    raise (ValueError "A dictionary representing a V1Job must be provided.")
  else
    connect w kubernetes_api_key_secret ;;
    body_update (or_empty body) ;;
    kube_kwargs_update (or_empty kube_kwargs) ;;
    t' ← get_self;
    invoke w create_namespaced_job None namespace (Some (self_body t'))
           kube_kwargs ;;
    ret None.

End CreateNamespacedJob.

Module DeleteNamespacedJob.

Definition init (name : option string) (namespace : option string)
    (kube_kwargs : option dict) (kubernetes_api_key_secret : option string)
  : task :=
  {| self_name := name;
     self_body := ∅;
     self_namespace := default_from_attr namespace default_namespace;
     self_kube_kwargs := or_empty (default_from_attr kube_kwargs ∅);
     self_kubernetes_api_key_secret :=
       default_from_attr kubernetes_api_key_secret default_secret;
     self_client := None |}.

Definition run (w : world) (name : option string) (namespace : option string)
    (kube_kwargs : option dict) (kubernetes_api_key_secret : option string)
  : M (option response) :=
  t ← get_self;
  let name := default_name name (self_name t) in
  let namespace := default_from_attr namespace (self_namespace t) in
  let kube_kwargs := default_from_attr kube_kwargs (self_kube_kwargs t) in
  let kubernetes_api_key_secret :=
    default_from_attr kubernetes_api_key_secret
                      (self_kubernetes_api_key_secret t) in
  if negb (opt_truthy name) then
    raise (ValueError "The name of a Kubernetes job must be provided.")
  else
    connect w kubernetes_api_key_secret ;;
    kube_kwargs_update (or_empty kube_kwargs) ;;
    invoke w delete_namespaced_job (Some name) namespace None kube_kwargs ;;
    ret None.

End DeleteNamespacedJob.

Module ListNamespacedJob.

Definition init (namespace : option string) (kube_kwargs : option dict)
    (kubernetes_api_key_secret : option string) : task :=
  {| self_name := None;
     self_body := ∅;
     self_namespace := default_from_attr namespace default_namespace;
     self_kube_kwargs := or_empty (default_from_attr kube_kwargs ∅);
     self_kubernetes_api_key_secret :=
       default_from_attr kubernetes_api_key_secret default_secret;
     self_client := None |}.

Definition run (w : world) (namespace : option string)
    (kube_kwargs : option dict) (kubernetes_api_key_secret : option string)
  : M (option response) :=
  t ← get_self;
  let namespace := default_from_attr namespace (self_namespace t) in
  let kube_kwargs := default_from_attr kube_kwargs (self_kube_kwargs t) in
  let kubernetes_api_key_secret :=
    default_from_attr kubernetes_api_key_secret
                      (self_kubernetes_api_key_secret t) in
  connect w kubernetes_api_key_secret ;;
  kube_kwargs_update (or_empty kube_kwargs) ;;
  r ← invoke w list_namespaced_job None namespace None kube_kwargs;
  ret (Some r).

End ListNamespacedJob.

Module PatchNamespacedJob.

(** The constructor takes [name] and does not store it (lines 331-334
    assign [body], [namespace], [kube_kwargs] and the secret's name
    only). *)
Definition init (name : option string) (body : option dict)
    (namespace : option string) (kube_kwargs : option dict)
    (kubernetes_api_key_secret : option string) : task :=
  {| self_name := None;
     self_body := or_empty (default_from_attr body ∅);
     self_namespace := default_from_attr namespace default_namespace;
     self_kube_kwargs := or_empty (default_from_attr kube_kwargs ∅);
     self_kubernetes_api_key_secret :=
       default_from_attr kubernetes_api_key_secret default_secret;
     self_client := None |}.

(** The call passes [namespace], [body] and the extra keywords; [name] is
    checked and not passed (lines 391-393). *)
Definition run (w : world) (name : option string) (body : option dict)
    (namespace : option string) (kube_kwargs : option dict)
    (kubernetes_api_key_secret : option string) : M (option response) :=
  t ← get_self;
  let name := default_name name (self_name t) in
  let body := default_from_attr body (self_body t) in
  let namespace := default_from_attr namespace (self_namespace t) in
  let kube_kwargs := default_from_attr kube_kwargs (self_kube_kwargs t) in
  let kubernetes_api_key_secret :=
    default_from_attr kubernetes_api_key_secret
                      (self_kubernetes_api_key_secret t) in
  if negb (dict_truthy body) then
    raise (ValueError
             "A dictionary representing a V1Job patch must be provided.")
  else if negb (opt_truthy name) then
    raise (ValueError "The name of a Kubernetes job must be provided.")
  else
    connect w kubernetes_api_key_secret ;;
    body_update (or_empty body) ;;
    kube_kwargs_update (or_empty kube_kwargs) ;;
    t' ← get_self;
    invoke w patch_namespaced_job None namespace (Some (self_body t'))
           kube_kwargs ;;
    ret None.

End PatchNamespacedJob.

Module ReadNamespacedJob.

Definition init (name : option string) (namespace : option string)
    (kube_kwargs : option dict) (kubernetes_api_key_secret : option string)
  : task :=
  {| self_name := name;
     self_body := ∅;
     self_namespace := default_from_attr namespace default_namespace;
     self_kube_kwargs := or_empty (default_from_attr kube_kwargs ∅);
     self_kubernetes_api_key_secret :=
       default_from_attr kubernetes_api_key_secret default_secret;
     self_client := None |}.

Definition run (w : world) (name : option string) (namespace : option string)
    (kube_kwargs : option dict) (kubernetes_api_key_secret : option string)
  : M (option response) :=
  t ← get_self;
  let name := default_name name (self_name t) in
  let namespace := default_from_attr namespace (self_namespace t) in
  let kube_kwargs := default_from_attr kube_kwargs (self_kube_kwargs t) in
  let kubernetes_api_key_secret :=
    default_from_attr kubernetes_api_key_secret
                      (self_kubernetes_api_key_secret t) in
  if negb (opt_truthy name) then
    raise (ValueError "The name of a Kubernetes job must be provided.")
  else
    connect w kubernetes_api_key_secret ;;
    kube_kwargs_update (or_empty kube_kwargs) ;;
    r ← invoke w read_namespaced_job (Some name) namespace None
                kube_kwargs;
    ret (Some r).

End ReadNamespacedJob.

Module ReplaceNamespacedJob.

(** As in [PatchNamespacedJob]: [name] is taken and not stored (lines
    538-541). *)
Definition init (name : option string) (body : option dict)
    (namespace : option string) (kube_kwargs : option dict)
    (kubernetes_api_key_secret : option string) : task :=
  {| self_name := None;
     self_body := or_empty (default_from_attr body ∅);
     self_namespace := default_from_attr namespace default_namespace;
     self_kube_kwargs := or_empty (default_from_attr kube_kwargs ∅);
     self_kubernetes_api_key_secret :=
       default_from_attr kubernetes_api_key_secret default_secret;
     self_client := None |}.

(** [name] is checked and not passed to the call (lines 596-598). *)
Definition run (w : world) (name : option string) (body : option dict)
    (namespace : option string) (kube_kwargs : option dict)
    (kubernetes_api_key_secret : option string) : M (option response) :=
  t ← get_self;
  let name := default_name name (self_name t) in
  let body := default_from_attr body (self_body t) in
  let namespace := default_from_attr namespace (self_namespace t) in
  let kube_kwargs := default_from_attr kube_kwargs (self_kube_kwargs t) in
  let kubernetes_api_key_secret :=
    default_from_attr kubernetes_api_key_secret
                      (self_kubernetes_api_key_secret t) in
  if negb (dict_truthy body) then
    raise (ValueError "A dictionary representing a V1Job must be provided.")
  else if negb (opt_truthy name) then
    raise (ValueError "The name of a Kubernetes job must be provided.")
  else
    connect w kubernetes_api_key_secret ;;
    body_update (or_empty body) ;;
    kube_kwargs_update (or_empty kube_kwargs) ;;
    t' ← get_self;
    invoke w replace_namespaced_job None namespace (Some (self_body t'))
           kube_kwargs ;;
    ret None.

End ReplaceNamespacedJob.

(** ** One entry point for the six classes *)

Inductive verb : Type := Create | Delete | List | Patch | Read | Replace.

(** The keyword arguments of a call of [run]; [None] is an argument that the
    caller leaves out.  A class is given the arguments its [run] declares
    and no others. *)
Record kwargs : Type := Kwargs {
  arg_name : option string;
  arg_body : option dict;
  arg_namespace : option string;
  arg_kube_kwargs : option dict;
  arg_kubernetes_api_key_secret : option string
}.

Definition no_kwargs : kwargs :=
  {| arg_name := None; arg_body := None; arg_namespace := None;
     arg_kube_kwargs := None; arg_kubernetes_api_key_secret := None |}.

Definition run (w : world) (v : verb) (a : kwargs) : M (option response) :=
  match v with
  | Create =>
      CreateNamespacedJob.run w (arg_body a) (arg_namespace a)
        (arg_kube_kwargs a) (arg_kubernetes_api_key_secret a)
  | Delete =>
      DeleteNamespacedJob.run w (arg_name a) (arg_namespace a)
        (arg_kube_kwargs a) (arg_kubernetes_api_key_secret a)
  | List =>
      ListNamespacedJob.run w (arg_namespace a)
        (arg_kube_kwargs a) (arg_kubernetes_api_key_secret a)
  | Patch =>
      PatchNamespacedJob.run w (arg_name a) (arg_body a) (arg_namespace a)
        (arg_kube_kwargs a) (arg_kubernetes_api_key_secret a)
  | Read =>
      ReadNamespacedJob.run w (arg_name a) (arg_namespace a)
        (arg_kube_kwargs a) (arg_kubernetes_api_key_secret a)
  | Replace =>
      ReplaceNamespacedJob.run w (arg_name a) (arg_body a) (arg_namespace a)
        (arg_kube_kwargs a) (arg_kubernetes_api_key_secret a)
  end.

Definition method_of (v : verb) : api_method :=
  match v with
  | Create => create_namespaced_job
  | Delete => delete_namespaced_job
  | List => list_namespaced_job
  | Patch => patch_namespaced_job
  | Read => read_namespaced_job
  | Replace => replace_namespaced_job
  end.

(** A run of task [t] from an empty log, and what is observed of it. *)
Definition exec (w : world) (v : verb) (a : kwargs) (t : task)
  : outcome (option response) * machine :=
  run w v a {| self := t; log := [] |}.

Definition result {A} (r : outcome A * machine) : outcome A := fst r.
Definition after {A} (r : outcome A * machine) : task := self (snd r).
Definition trace {A} (r : outcome A * machine) : list event := log (snd r).

(** The calls of a log, in order. *)
Fixpoint calls (l : list event) : list api_call :=
  match l with
  | [] => []
  | EvCall c :: l' => c :: calls l'
  | _ :: l' => calls l'
  end.

(** The arguments as the body of [run] sees them. *)
Definition eff_name (a : kwargs) (t : task) : option string :=
  default_name (arg_name a) (self_name t).
Definition eff_body (a : kwargs) (t : task) : dict :=
  default_from_attr (arg_body a) (self_body t).
Definition eff_namespace (a : kwargs) (t : task) : string :=
  default_from_attr (arg_namespace a) (self_namespace t).
Definition eff_kube_kwargs (a : kwargs) (t : task) : dict :=
  default_from_attr (arg_kube_kwargs a) (self_kube_kwargs t).
Definition eff_secret (a : kwargs) (t : task) : string :=
  default_from_attr (arg_kubernetes_api_key_secret a)
                    (self_kubernetes_api_key_secret t).

(** ** The vocabulary of the specification *)

(** The table of required fields (section 4.3 of the specification). *)
Definition needs_body (v : verb) : bool :=
  match v with
  | Create | Patch | Replace => true
  | Delete | List | Read => false
  end.

Definition needs_name (v : verb) : bool :=
  match v with
  | Delete | Patch | Read | Replace => true
  | Create | List => false
  end.

(** An invocation that misses a field the table requires. *)
Definition required_missing (v : verb) (a : kwargs) (t : task) : bool :=
  (needs_body v && negb (dict_truthy (eff_body a t)))
  || (needs_name v && negb (opt_truthy (eff_name a t))).

(** The verbs whose result is handed back (list and read). *)
Definition returns_result (v : verb) : bool :=
  match v with
  | List | Read => true
  | Create | Delete | Patch | Replace => false
  end.

(** Some strategy of section 4.2 yields a client: the secret is a non-empty
    string, or the in-cluster loader succeeds, or it raises
    [ConfigException] and the kube-config loader succeeds. *)
Definition can_connect (w : world) (secret : string) : bool :=
  opt_truthy (secrets w secret)
  || match incluster_config w with
     | None => true
     | Some e =>
         is_ConfigException e
         && match kube_config w with None => true | Some _ => false end
     end.







(** ** Sample inputs *)

Definition body_a : dict := {[ "a" := VInt 1 ]}.
Definition body_b : dict := {[ "b" := VInt 2 ]}.
Definition kw_pretty : dict := {[ "pretty" := VStr "true" ]}.
Definition kw_dry_run : dict := {[ "dry_run" := VStr "All" ]}.

(** A world with a bearer token under the default secret name and an API
    that answers every call. *)
Definition answer (c : api_call) : response :=
  match call_method c with
  | list_namespaced_job => V1JobList []
  | read_namespaced_job => V1Job VNone
  | _ => V1Status VNone
  end.

Definition world_token : world :=
  {| secrets := fun n => if String.eqb n default_secret then Some "Bearer abc"
                         else None;
     incluster_config := None;
     kube_config := None;
     batch_api := fun c => inr (answer c) |}.

(** A developer's machine: no secret, not in a cluster, a kube-config file
    that loads. *)
Definition world_laptop : world :=
  {| secrets := fun _ => None;
     incluster_config := Some (ConfigException "Service host/port is not set.");
     kube_config := None;
     batch_api := fun c => inr (answer c) |}.

(** The same machine without a kube-config file. *)
Definition world_nowhere : world :=
  {| secrets := fun _ => None;
     incluster_config := Some (ConfigException "Service host/port is not set.");
     kube_config := Some (ConfigException "Invalid kube-config file.");
     batch_api := fun c => inr (answer c) |}.

(** ** Credential resolution as the specification words it *)

(** Section 9 of the specification: the strategy that a run settles on. *)
Inductive strategy : Type :=
| BearerToken (token : string)
| InCluster
| LocalConfig.

Definition client_of (st : strategy) : api_client :=
  match st with
  | BearerToken token => BatchV1Api_with token
  | InCluster | LocalConfig => BatchV1Api_default
  end.

(** Section 4.2, in strict order, first success wins: a non-empty secret is
    a bearer token; else the in-cluster loader; else, when that one fails
    with the not-in-cluster condition, the local file, whose failure is
    final. *)
Definition resolve_credentials (w : world) (secret : string)
  : exn + strategy :=
  if opt_truthy (secrets w secret) then
    inr (BearerToken (default "" (secrets w secret)))
  else
    match incluster_config w with
    | None => inr InCluster
    | Some e =>
        if is_ConfigException e then
          match kube_config w with
          | None => inr LocalConfig
          | Some e' => inl e'
          end
        else inl e
    end.

(** The probes that the resolution makes on the way. *)
Definition probes (w : world) (secret : string) : list event :=
  EvSecretGet secret ::
  (if opt_truthy (secrets w secret) then []
   else EvLoadIncluster ::
        match incluster_config w with
        | None => []
        | Some e => if is_ConfigException e then [EvLoadKubeConfig] else []
        end).

(** ** What a run that gets through is expected to do *)

(** The call of verb [v] on client [c]: the explicit keywords of each call
    expression, the body read from [self] after the merge, the extra
    keywords from the local variable [kube_kwargs]. *)
Definition the_call (v : verb) (a : kwargs) (t : task) (c : api_client)
  : api_call :=
  {| call_method := method_of v;
     call_on := c;
     kw_name := match v with
                | Delete | Read => Some (eff_name a t)
                | _ => None
                end;
     kw_namespace := eff_namespace a t;
     kw_body := if needs_body v
                then Some (update (self_body t) (eff_body a t)) else None;
     star_kwargs := eff_kube_kwargs a t |}.

(** [self] after the client is set and the mappings are merged. *)
Definition merged_task (v : verb) (a : kwargs) (t : task) (c : api_client)
  : task :=
  {| self_name := self_name t;
     self_body := if needs_body v
                  then update (self_body t) (eff_body a t) else self_body t;
     self_namespace := self_namespace t;
     self_kube_kwargs := update (self_kube_kwargs t) (eff_kube_kwargs a t);
     self_kubernetes_api_key_secret := self_kubernetes_api_key_secret t;
     self_client := Some c |}.

(** The log of such a run. *)
Definition steps (w : world) (v : verb) (a : kwargs) (t : task)
    (c : api_client) : list event :=
  probes w (eff_secret a t)
  ++ [EvSetClient c]
  ++ (if needs_body v then [EvUpdateBody (eff_body a t)] else [])
  ++ [EvUpdateKubeKwargs (eff_kube_kwargs a t)]
  ++ [EvCall (the_call v a t c)].

(** The message of the check that fails first. *)
Definition complaint (v : verb) (a : kwargs) (t : task) : string :=
  if needs_body v && negb (dict_truthy (eff_body a t)) then
    match v with
    | Patch => "A dictionary representing a V1Job patch must be provided."
    | _ => "A dictionary representing a V1Job must be provided."
    end
  else "The name of a Kubernetes job must be provided.".

(** The scenario of the specification: a create task built with body
    [{"a": 1}] and run with body [{"b": 2}]. *)
Definition task_a : task := CreateNamespacedJob.init (Some body_a) None None None.

Definition run_with_b : kwargs :=
  {| arg_name := None; arg_body := Some body_b; arg_namespace := None;
     arg_kube_kwargs := None; arg_kubernetes_api_key_secret := None |}.

Definition task_pretty : task :=
  DeleteNamespacedJob.init (Some "job") None (Some kw_pretty) None.

Definition run_dry : kwargs :=
  {| arg_name := None; arg_body := None; arg_namespace := None;
     arg_kube_kwargs := Some kw_dry_run;
     arg_kubernetes_api_key_secret := None |}.

Definition task_job : task :=
  DeleteNamespacedJob.init (Some "job") None None None.




Definition task_read_job : task :=
  ReadNamespacedJob.init (Some "job") None None None.

(** A read task run with overrides for all three: the call uses the
    overrides, the task keeps what it had. *)
Definition run_overrides : kwargs :=
  {| arg_name := Some "other"; arg_body := None;
     arg_namespace := Some "staging"; arg_kube_kwargs := None;
     arg_kubernetes_api_key_secret := Some "OTHER_KEY" |}.

(** ** Frames

    A property of [self] that a computation hands on: if it holds of [self]
    before, it holds after, however the computation ends. *)
Definition keeps (P : task -> Prop) {A} (m : M A) : Prop :=
  forall s, P (self s) -> P (self (snd (m s))).

(** ** The constructors, by verb *)

(** The constructor of the class of verb [v], given the arguments that the
    class declares and no others. *)
Definition init (v : verb) (name : option string) (body : option dict)
    (namespace : option string) (kube_kwargs : option dict)
    (kubernetes_api_key_secret : option string) : task :=
  match v with
  | Create =>
      CreateNamespacedJob.init body namespace kube_kwargs
        kubernetes_api_key_secret
  | Delete =>
      DeleteNamespacedJob.init name namespace kube_kwargs
        kubernetes_api_key_secret
  | List =>
      ListNamespacedJob.init namespace kube_kwargs kubernetes_api_key_secret
  | Patch =>
      PatchNamespacedJob.init name body namespace kube_kwargs
        kubernetes_api_key_secret
  | Read =>
      ReadNamespacedJob.init name namespace kube_kwargs
        kubernetes_api_key_secret
  | Replace =>
      ReplaceNamespacedJob.init name body namespace kube_kwargs
        kubernetes_api_key_secret
  end.

(** A call of [run] that gives the name and nothing else. *)
Definition only_name (n : string) : kwargs :=
  {| arg_name := Some n; arg_body := None; arg_namespace := None;
     arg_kube_kwargs := None; arg_kubernetes_api_key_secret := None |}.

(** The secret lookups of a log, in order. *)
Fixpoint lookups (l : list event) : list string :=
  match l with
  | [] => []
  | EvSecretGet n :: l' => n :: lookups l'
  | _ :: l' => lookups l'
  end.

(** ** More sample inputs *)

(** A pod of the cluster: no secret, the in-cluster loader succeeds. *)
Definition world_pod : world :=
  {| secrets := fun _ => None;
     incluster_config := None;
     kube_config := Some (ConfigException "Invalid kube-config file.");
     batch_api := fun c => inr (answer c) |}.

(** A pod whose service-account token cannot be read: the in-cluster loader
    raises something other than [ConfigException]. *)
Definition world_unreadable : world :=
  {| secrets := fun _ => Some "";
     incluster_config := Some (OtherError "PermissionError" "token");
     kube_config := None;
     batch_api := fun c => inr (answer c) |}.

(** A cluster that rejects every call. *)
Definition world_conflict : world :=
  {| secrets := fun n => if String.eqb n default_secret then Some "Bearer abc"
                         else None;
     incluster_config := None;
     kube_config := None;
     batch_api := fun _ => inl (ApiException 409 "Conflict") |}.

Definition body_c : dict := {[ "a" := VInt 3; "c" := VInt 4 ]}.

Definition run_with_c : kwargs :=
  {| arg_name := None; arg_body := Some body_c; arg_namespace := None;
     arg_kube_kwargs := None; arg_kubernetes_api_key_secret := None |}.

Definition run_empty_body : kwargs :=
  {| arg_name := Some "job"; arg_body := Some ∅; arg_namespace := None;
     arg_kube_kwargs := None; arg_kubernetes_api_key_secret := None |}.

Definition task_replace_a : task :=
  ReplaceNamespacedJob.init None (Some body_a) None None None.

(** * Properties *)

(** ** Dictionaries *)

Lemma update_lookup (d r : dict) (k : string) :
  update d r !! k = match r !! k with Some x => Some x | None => d !! k end.
Proof.
  unfold update. rewrite lookup_union.
  destruct (r !! k), (d !! k); reflexivity.
Qed.

Lemma update_same (d : dict) : update d d = d.
Proof.
  apply map_eq; intros k. rewrite update_lookup. destruct (d !! k); reflexivity.
Qed.

Lemma update_dom (d r : dict) : dom (update d r) = dom d ∪ dom r.
Proof. unfold update. rewrite dom_union_L. apply (comm_L (∪)). Qed.

Lemma dict_truthy_false (d : dict) : dict_truthy d = false -> d = ∅.
Proof.
  unfold dict_truthy. intros H. apply negb_false_iff, Nat.eqb_eq in H.
  by apply map_size_empty_iff.
Qed.

Lemma dict_truthy_nonempty (d : dict) : d ≠ ∅ -> dict_truthy d = true.
Proof.
  intros H. destruct (dict_truthy d) eqn:E; [reflexivity|].
  by apply dict_truthy_false in E.
Qed.

Lemma or_empty_id (d : dict) : or_empty d = d.
Proof.
  unfold or_empty. destruct (dict_truthy d) eqn:E; [reflexivity|].
  symmetry. by apply dict_truthy_false.
Qed.

(** ** The credential block *)

(** [connect] does what section 4.2 says: it makes the probes of [probes],
    and either sets the client of the strategy found or raises with [self]
    untouched. *)
Lemma connect_spec (w : world) (secret : string) (s : machine) :
  connect w secret s =
  match resolve_credentials w secret with
  | inr st =>
      (Returned tt,
       {| self := set_client (client_of st) (self s);
          log := log s ++ probes w secret ++ [EvSetClient (client_of st)] |})
  | inl e =>
      (Raised e, {| self := self s; log := log s ++ probes w secret |})
  end.
Proof.
  unfold connect, resolve_credentials, probes, Secret_get, connect_ambient,
    try_except, load_incluster_config, load_kube_config, assign_client,
    mbind, M_bind, mret, M_ret, bind, emit, modify_self, ret, raise.
  destruct s as [t l]; simpl.
  destruct (secrets w secret) as [[|ch key]|]; simpl;
    try (rewrite <- !app_assoc; reflexivity);
    (destruct (incluster_config w) as [e|]; simpl;
     [ destruct (is_ConfigException e); simpl;
       [ destruct (kube_config w); simpl | ] | ]);
    rewrite <- ?app_assoc; reflexivity.
Qed.

(** ** The three ways a run can go *)

Ltac unfold_run :=
  unfold exec, run,
    CreateNamespacedJob.run, DeleteNamespacedJob.run, ListNamespacedJob.run,
    PatchNamespacedJob.run, ReadNamespacedJob.run, ReplaceNamespacedJob.run,
    mbind, M_bind, mret, M_ret.

Ltac unfold_steps :=
  unfold body_update, kube_kwargs_update, invoke, mbind, M_bind, mret, M_ret,
    bind, emit, modify_self, get_self, ret, raise.

(** Splits on the two checks of [required_missing]. *)
Ltac split_checks a t :=
  unfold required_missing, complaint, eff_body, eff_name in *;
  destruct (dict_truthy (default_from_attr (arg_body a) (self_body t)));
  destruct (opt_truthy (default_name (arg_name a) (self_name t)));
  simpl in *; try discriminate.

(** A required field is missing: the run raises at once. *)
Lemma exec_invalid (w : world) (v : verb) (a : kwargs) (t : task) :
  required_missing v a t = true ->
  exec w v a t =
  (Raised (ValueError (complaint v a t)), {| self := t; log := [] |}).
Proof.
  intros H. destruct v; unfold_run; unfold bind at 1; unfold get_self; simpl;
    split_checks a t; reflexivity.
Qed.

(** The fields are there and no strategy yields a client: the run raises
    what the last loader raised, after the probes and nothing else. *)
Lemma exec_no_credentials (w : world) (v : verb) (a : kwargs) (t : task)
    (e : exn) :
  required_missing v a t = false ->
  resolve_credentials w (eff_secret a t) = inl e ->
  exec w v a t =
  (Raised e, {| self := t; log := probes w (eff_secret a t) |}).
Proof.
  intros H Hc. unfold eff_secret in Hc.
  destruct v; unfold_run; unfold bind at 1; unfold get_self; simpl;
    split_checks a t; unfold bind at 1; rewrite connect_spec, Hc; reflexivity.
Qed.

(** The fields are there and a strategy yields a client: the client is set,
    the mappings are merged, the call is made, and its answer decides how
    the run ends. *)
Lemma exec_connected (w : world) (v : verb) (a : kwargs) (t : task)
    (st : strategy) :
  required_missing v a t = false ->
  resolve_credentials w (eff_secret a t) = inr st ->
  exec w v a t =
  (match batch_api w (the_call v a t (client_of st)) with
   | inl e => Raised e
   | inr r => Returned (if returns_result v then Some r else None)
   end,
   {| self := merged_task v a t (client_of st);
      log := steps w v a t (client_of st) |}).
Proof.
  intros H Hc. unfold eff_secret in Hc. unfold steps, the_call, merged_task.
  destruct v; unfold_run; unfold bind at 1; unfold get_self; simpl;
    split_checks a t; unfold bind at 1; rewrite connect_spec, Hc;
    unfold_steps; simpl; rewrite !or_empty_id;
    unfold eff_kube_kwargs, eff_namespace, eff_secret, eff_name, eff_body;
    match goal with
    | |- context [batch_api w ?c] => destruct (batch_api w c)
    end; simpl; rewrite <- ?app_assoc; reflexivity.
Qed.

Lemma can_connect_resolve (w : world) (secret : string) :
  can_connect w secret = true ->
  exists st, resolve_credentials w secret = inr st.
Proof.
  unfold can_connect, resolve_credentials.
  destruct (opt_truthy (secrets w secret)); simpl; [eauto|].
  destruct (incluster_config w) as [e|]; [|eauto].
  destruct (is_ConfigException e); simpl; [|discriminate].
  destruct (kube_config w); [discriminate|eauto].
Qed.

(** ** The calls of a run *)

Lemma calls_app (l1 l2 : list event) : calls (l1 ++ l2) = calls l1 ++ calls l2.
Proof.
  induction l1 as [|ev l1 IH]; [reflexivity|].
  destruct ev; simpl; rewrite IH; reflexivity.
Qed.

Lemma calls_probes (w : world) (secret : string) : calls (probes w secret) = [].
Proof.
  unfold probes. destruct (opt_truthy (secrets w secret)); [reflexivity|].
  destruct (incluster_config w) as [e|]; [|reflexivity].
  destruct (is_ConfigException e); reflexivity.
Qed.

Lemma calls_steps (w : world) (v : verb) (a : kwargs) (t : task)
    (c : api_client) :
  calls (steps w v a t c) = [the_call v a t c].
Proof.
  unfold steps. rewrite calls_app, calls_probes.
  destruct (needs_body v); reflexivity.
Qed.

(** A run that passes the checks and finds a client makes one call, the one
    of [the_call]. *)
Lemma exec_calls (w : world) (v : verb) (a : kwargs) (t : task) :
  required_missing v a t = false ->
  can_connect w (eff_secret a t) = true ->
  exists st,
    resolve_credentials w (eff_secret a t) = inr st
    /\ calls (trace (exec w v a t)) = [the_call v a t (client_of st)].
Proof.
  intros Hreq Hcan. destruct (can_connect_resolve _ _ Hcan) as [st Hst].
  exists st. split; [exact Hst|].
  rewrite (exec_connected w v a t st Hreq Hst). unfold trace; simpl.
  apply calls_steps.
Qed.

Lemma update_nonempty (d r : dict) : r ≠ ∅ -> update d r ≠ ∅.
Proof.
  unfold update. intros Hr Hu. apply Hr.
  apply map_eq; intros k. rewrite lookup_empty.
  assert (Hk : (r ∪ d) !! k = None) by (rewrite Hu; apply lookup_empty).
  apply lookup_union_None in Hk. tauto.
Qed.

(** ** Merging the body (C1) *)

(** C1. For create, patch and replace, with stored body [S] and a non-empty
    run-time body [R], a run that passes the name check of its verb and
    finds a client works with the body [E] that has [R]'s value at every
    key of [R] and [S]'s value at every other key of [S]: its one API call
    carries [E], the stored body is [E] afterwards, and a later run of the
    same task that leaves the body out calls with [E] again. *)
Theorem C1_body_merge (w : world) (v : verb) (a : kwargs) (t : task)
    (R : dict) :
  needs_body v = true ->
  arg_body a = Some R ->
  R ≠ ∅ ->
  (needs_name v = true -> opt_truthy (eff_name a t) = true) ->
  can_connect w (eff_secret a t) = true ->
  let S := self_body t in
  let E := update S R in
  let t' := after (exec w v a t) in
  (forall k, E !! k = match R !! k with Some x => Some x | None => S !! k end)
  /\ dom E = dom S ∪ dom R
  /\ (exists c, calls (trace (exec w v a t)) = [c] /\ kw_body c = Some E)
  /\ self_body t' = E
  /\ (forall (w2 : world) (a2 : kwargs),
        arg_body a2 = None ->
        (needs_name v = true -> opt_truthy (eff_name a2 t') = true) ->
        can_connect w2 (eff_secret a2 t') = true ->
        (exists c, calls (trace (exec w2 v a2 t')) = [c] /\ kw_body c = Some E)
        /\ self_body (after (exec w2 v a2 t')) = E).
Proof.
  intros Hv Ha HR Hname Hcan S E t'.
  assert (Hbody : eff_body a t = R) by (unfold eff_body; rewrite Ha; reflexivity).
  assert (Hreq : required_missing v a t = false).
  { unfold required_missing. rewrite Hbody, (dict_truthy_nonempty R HR), Hv.
    simpl. destruct (needs_name v); [|reflexivity].
    rewrite Hname; reflexivity. }
  destruct (can_connect_resolve _ _ Hcan) as [st Hst].
  assert (Ht' : t' = merged_task v a t (client_of st)).
  { unfold t'. rewrite (exec_connected w v a t st Hreq Hst). reflexivity. }
  assert (HE : self_body t' = E).
  { rewrite Ht'. unfold merged_task; simpl. rewrite Hv, Hbody. reflexivity. }
  split; [intros k; apply update_lookup|].
  split; [apply update_dom|].
  split.
  { exists (the_call v a t (client_of st)). split.
    - rewrite (exec_connected w v a t st Hreq Hst). apply calls_steps.
    - unfold the_call; simpl. rewrite Hv, Hbody. reflexivity. }
  split; [exact HE|].
  intros w2 a2 Ha2 Hname2 Hcan2.
  assert (Hbody2 : eff_body a2 t' = E)
    by (unfold eff_body; rewrite Ha2; simpl; exact HE).
  assert (Hreq2 : required_missing v a2 t' = false).
  { unfold required_missing. rewrite Hbody2, Hv.
    rewrite (dict_truthy_nonempty E (update_nonempty S R HR)). simpl.
    destruct (needs_name v); [|reflexivity]. rewrite Hname2; reflexivity. }
  destruct (can_connect_resolve _ _ Hcan2) as [st2 Hst2].
  rewrite (exec_connected w2 v a2 t' st2 Hreq2 Hst2). split.
  - exists (the_call v a2 t' (client_of st2)). split; [apply calls_steps|].
    unfold the_call; simpl. rewrite Hv, Hbody2, HE, update_same. reflexivity.
  - unfold after, merged_task; simpl. rewrite Hv, Hbody2, HE, update_same.
    reflexivity.
Qed.

Lemma body_b_nonempty : body_b ≠ ∅.
Proof. unfold body_b. apply insert_non_empty. Qed.

Lemma C1_body_merge_witness :
  (exists c, calls (trace (exec world_token Create run_with_b task_a)) = [c]
             /\ kw_body c = Some (update body_a body_b))
  /\ self_body (after (exec world_token Create run_with_b task_a))
     = update body_a body_b.
Proof.
  destruct (C1_body_merge world_token Create run_with_b task_a body_b)
    as (_ & _ & Hcall & Hstored & _).
  - reflexivity.
  - reflexivity.
  - exact body_b_nonempty.
  - intros H; discriminate H.
  - reflexivity.
  - split; [exact Hcall | exact Hstored].
Defined.

(** The merged body of the scenario, key by key. *)
Example update_a_b :
  update body_a body_b !! "a" = Some (VInt 1)
  /\ update body_a body_b !! "b" = Some (VInt 2)
  /\ update body_a body_b !! "c" = None.
Proof. repeat split; vm_compute; reflexivity. Qed.

(** A key of both mappings takes the run-time value, and a nested mapping is
    replaced whole. *)
Example update_shallow :
  update {[ "spec" := VDict [("x", VInt 1); ("y", VInt 2)] ]}
         {[ "spec" := VDict [("x", VInt 3)] ]}
  = {[ "spec" := VDict [("x", VInt 3)] ]}.
Proof.
  apply map_eq; intros k. rewrite update_lookup.
  destruct (decide (k = "spec")) as [->|Hk].
  - rewrite !lookup_singleton_eq. reflexivity.
  - rewrite !lookup_singleton_ne by congruence. reflexivity.
Qed.

(** ** The extra keyword arguments (C2) *)

(** Whatever the verb, the call is given the local [kube_kwargs], that is
    the run-time mapping when there is one and the stored mapping
    otherwise; the merged mapping goes to [self.kube_kwargs] only. *)
Lemma kube_kwargs_as_given (w : world) (v : verb) (a : kwargs) (t : task) :
  required_missing v a t = false ->
  can_connect w (eff_secret a t) = true ->
  (exists c, calls (trace (exec w v a t)) = [c]
             /\ star_kwargs c = default_from_attr (arg_kube_kwargs a)
                                                  (self_kube_kwargs t))
  /\ self_kube_kwargs (after (exec w v a t))
     = update (self_kube_kwargs t)
              (default_from_attr (arg_kube_kwargs a) (self_kube_kwargs t)).
Proof.
  intros Hreq Hcan. destruct (exec_calls w v a t Hreq Hcan) as (st & Hst & Hc).
  split.
  - eexists; split; [exact Hc | reflexivity].
  - rewrite (exec_connected w v a t st Hreq Hst). reflexivity.
Qed.

(** C2, at a delete task built with [kube_kwargs = {"pretty": "true"}] and
    run with [kube_kwargs = {"dry_run": "All"}]: the call is given the
    run-time mapping alone, without the stored key, while the stored
    mapping becomes the merge of the two. *)
Theorem C2_call_gets_raw_kube_kwargs :
  let r := exec world_token Delete run_dry task_pretty in
  (exists c, calls (trace r) = [c]
             /\ star_kwargs c = kw_dry_run
             /\ star_kwargs c !! "pretty" = None
             /\ star_kwargs c ≠ update kw_pretty kw_dry_run)
  /\ self_kube_kwargs (after r) = update kw_pretty kw_dry_run
  /\ update kw_pretty kw_dry_run !! "pretty" = Some (VStr "true").
Proof.
  simpl. split; [|split; vm_compute; reflexivity].
  eexists. split; [vm_compute; reflexivity|].
  split; [vm_compute; reflexivity|].
  split; [vm_compute; reflexivity|].
  intros H. apply (f_equal (fun m : dict => m !! "pretty")) in H.
  vm_compute in H. discriminate H.
Qed.

(** ** Credential resolution (C3, C4) *)

Lemma probes_bearer (w : world) (secret : string) :
  opt_truthy (secrets w secret) = true -> probes w secret = [EvSecretGet secret].
Proof. unfold probes. intros ->. reflexivity. Qed.

Lemma str_truthy_nonempty (s : string) : s ≠ "" -> str_truthy s = true.
Proof. destruct s; [congruence | reflexivity]. Qed.

Lemma probes_no_loader_with_key (w : world) (secret : string) :
  opt_truthy (secrets w secret) = true ->
  (EvLoadIncluster ∉ probes w secret) /\ (EvLoadKubeConfig ∉ probes w secret).
Proof.
  intros H. rewrite (probes_bearer w secret H).
  split; intros Hin; apply list_elem_of_singleton in Hin; discriminate Hin.
Qed.

(** No step after the probes is a loader. *)
Lemma loaders_only_in_probes (w : world) (v : verb) (a : kwargs) (t : task)
    (c : api_client) (ev : event) :
  ev = EvLoadIncluster \/ ev = EvLoadKubeConfig ->
  ev ∈ steps w v a t c -> ev ∈ probes w (eff_secret a t).
Proof.
  intros Hev Hin. unfold steps in Hin.
  apply elem_of_app in Hin as [Hin|Hin]; [exact Hin|].
  exfalso.
  destruct (needs_body v); simpl in Hin;
    repeat (apply elem_of_cons in Hin as [Hin|Hin];
            [destruct Hev; congruence|]);
    apply elem_of_nil in Hin; exact Hin.
Qed.

(** C3. When the secret named by the credential reference of a run is a
    non-empty string, neither the in-cluster loader nor the kube-config
    loader is called; and when the run passes its checks, the secret lookup
    is followed at once by a client whose authorization is that secret, the
    client that [self] keeps and on which the call is made. *)
Theorem C3_bearer_token (w : world) (v : verb) (a : kwargs) (t : task)
    (key : string) :
  secrets w (eff_secret a t) = Some key ->
  key ≠ "" ->
  let r := exec w v a t in
  (EvLoadIncluster ∉ trace r)
  /\ (EvLoadKubeConfig ∉ trace r)
  /\ (required_missing v a t = false ->
      (exists rest,
          trace r = EvSecretGet (eff_secret a t)
                    :: EvSetClient (BatchV1Api_with key) :: rest)
      /\ self_client (after r) = Some (BatchV1Api_with key)
      /\ exists c, calls (trace r) = [c] /\ call_on c = BatchV1Api_with key).
Proof.
  intros Hsec Hkey r.
  assert (Htruthy : opt_truthy (secrets w (eff_secret a t)) = true)
    by (rewrite Hsec; simpl; by apply str_truthy_nonempty).
  assert (Hres : resolve_credentials w (eff_secret a t) = inr (BearerToken key))
    by (unfold resolve_credentials; rewrite Htruthy, Hsec; reflexivity).
  destruct (probes_no_loader_with_key _ _ Htruthy) as [Hin Hkube].
  unfold r. destruct (required_missing v a t) eqn:Hreq.
  - rewrite (exec_invalid w v a t Hreq). unfold trace; cbn [fst snd log self].
    split; [apply not_elem_of_nil | split; [apply not_elem_of_nil | discriminate]].
  - rewrite (exec_connected w v a t _ Hreq Hres). unfold trace, after; cbn [fst snd log self].
    split; [|split].
    + intros H. apply Hin. eapply loaders_only_in_probes; eauto.
    + intros H. apply Hkube. eapply loaders_only_in_probes; eauto.
    + intros _. split; [|split].
      * unfold steps. rewrite (probes_bearer _ _ Htruthy). simpl. eauto.
      * reflexivity.
      * rewrite calls_steps. eauto.
Qed.

Lemma C3_bearer_token_witness :
  (EvLoadIncluster ∉ trace (exec world_token Delete no_kwargs task_job))
  /\ self_client (after (exec world_token Delete no_kwargs task_job))
     = Some (BatchV1Api_with "Bearer abc").
Proof.
  destruct (C3_bearer_token world_token Delete no_kwargs task_job "Bearer abc")
    as (Hin & _ & H).
  - reflexivity.
  - discriminate.
  - split; [exact Hin|]. destruct (H eq_refl) as (_ & Hc & _). exact Hc.
Defined.

(** C4. When a run passes its checks, the secret lookup yields nothing (or
    the empty string) and the in-cluster loader raises [ConfigException],
    the kube-config loader is called next; and when that one raises too, the
    run ends with its exception after these three probes and nothing else,
    with [self] as it was. When it loads, the default client is set and the
    call is made on it. *)
Theorem C4_fall_through (w : world) (v : verb) (a : kwargs) (t : task)
    (msg : string) :
  required_missing v a t = false ->
  opt_truthy (secrets w (eff_secret a t)) = false ->
  incluster_config w = Some (ConfigException msg) ->
  let r := exec w v a t in
  let three := [EvSecretGet (eff_secret a t); EvLoadIncluster;
                EvLoadKubeConfig] in
  (exists rest, trace r = three ++ rest)
  /\ (forall e, kube_config w = Some e ->
                result r = Raised e /\ trace r = three /\ after r = t)
  /\ (kube_config w = None ->
      self_client (after r) = Some BatchV1Api_default
      /\ exists c, calls (trace r) = [c] /\ call_on c = BatchV1Api_default).
Proof.
  intros Hreq Hsec Hin r three.
  assert (Hprobes : probes w (eff_secret a t) = three)
    by (unfold probes; rewrite Hsec, Hin; reflexivity).
  unfold r. destruct (kube_config w) as [e|] eqn:Hkube.
  - assert (Hres : resolve_credentials w (eff_secret a t) = inl e)
      by (unfold resolve_credentials; rewrite Hsec, Hin, Hkube; reflexivity).
    rewrite (exec_no_credentials w v a t e Hreq Hres), Hprobes.
    unfold trace, result, after; cbn [fst snd log self]. split; [|split].
    + exists []. reflexivity.
    + intros e' [= <-]. auto.
    + discriminate.
  - assert (Hres : resolve_credentials w (eff_secret a t) = inr LocalConfig)
      by (unfold resolve_credentials; rewrite Hsec, Hin, Hkube; reflexivity).
    rewrite (exec_connected w v a t _ Hreq Hres).
    unfold trace, result, after; cbn [fst snd log self]. split; [|split].
    + unfold steps. rewrite Hprobes. eauto.
    + discriminate.
    + intros _. split; [reflexivity|]. rewrite calls_steps. eauto.
Qed.

Lemma C4_fall_through_witness :
  result (exec world_nowhere Delete no_kwargs task_job)
  = Raised (ConfigException "Invalid kube-config file.")
  /\ trace (exec world_nowhere Delete no_kwargs task_job)
     = [EvSecretGet "KUBERNETES_API_KEY"; EvLoadIncluster; EvLoadKubeConfig]
  /\ after (exec world_nowhere Delete no_kwargs task_job) = task_job.
Proof.
  destruct (C4_fall_through world_nowhere Delete no_kwargs task_job
              "Service host/port is not set.") as (_ & H & _).
  - reflexivity.
  - reflexivity.
  - reflexivity.
  - apply (H (ConfigException "Invalid kube-config file.")). reflexivity.
Defined.

(** The calls of patch and replace carry no [name]: the name is checked
    and then left out of the call expression, so the job to patch or to
    replace is named only if the extra keywords name it. *)
Remark patch_replace_call_without_name (v : verb) (a : kwargs) (t : task)
    (c : api_client) :
  v = Patch \/ v = Replace -> kw_name (the_call v a t c) = None.
Proof. intros [-> | ->]; reflexivity. Qed.

(** ** Required fields (C5, C9) *)






(** ** What a run returns (C7, C8) *)

(** C7. A run that passes its checks and finds a client makes its one API
    call; when the call raises, the run raises the same; when it answers,
    list and read return the answer, and create, delete, patch and replace
    return [None]. *)
Theorem C7_returned_value (w : world) (v : verb) (a : kwargs) (t : task) :
  required_missing v a t = false ->
  can_connect w (eff_secret a t) = true ->
  let r := exec w v a t in
  exists c,
    calls (trace r) = [c]
    /\ call_method c = method_of v
    /\ match batch_api w c with
       | inl e => result r = Raised e
       | inr x =>
           result r = Returned (match v with
                                | List | Read => Some x
                                | Create | Delete | Patch | Replace => None
                                end)
       end.
Proof.
  intros Hreq Hcan r. destruct (can_connect_resolve _ _ Hcan) as [st Hst].
  exists (the_call v a t (client_of st)). unfold r.
  rewrite (exec_connected w v a t st Hreq Hst).
  unfold trace, result; cbn [fst snd log].
  split; [apply calls_steps|]. split; [reflexivity|].
  destruct (batch_api w (the_call v a t (client_of st))); [reflexivity|].
  destruct v; reflexivity.
Qed.

Lemma C7_returned_value_witness :
  result (exec world_token Read no_kwargs task_read_job)
  = Returned (Some (V1Job VNone))
  /\ result (exec world_token Delete no_kwargs task_job) = Returned None.
Proof.
  split.
  - destruct (C7_returned_value world_token Read no_kwargs task_read_job)
      as (c & Hc & _ & Hres); [reflexivity | reflexivity |].
    injection Hc as <-. exact Hres.
  - destruct (C7_returned_value world_token Delete no_kwargs task_job)
      as (c & Hc & _ & Hres); [reflexivity | reflexivity |].
    injection Hc as <-. exact Hres.
Defined.

(** C8. A list task built with no arguments and run with none makes, once a
    client is found, exactly one API call: [list_namespaced_job] with
    namespace ["default"], no body, no name and no extra keyword; what the
    call answers is what the run returns. *)
Theorem C8_list_defaults (w : world) :
  can_connect w default_secret = true ->
  let r := exec w List no_kwargs (ListNamespacedJob.init None None None) in
  exists c,
    calls (trace r) = [c]
    /\ call_method c = list_namespaced_job
    /\ kw_namespace c = "default"
    /\ kw_body c = None
    /\ kw_name c = None
    /\ star_kwargs c = ∅
    /\ (forall x, batch_api w c = inr x -> result r = Returned (Some x)).
Proof.
  intros Hcan r. destruct (can_connect_resolve _ _ Hcan) as [st Hst].
  exists (the_call List no_kwargs (ListNamespacedJob.init None None None)
            (client_of st)).
  unfold r.
  rewrite (exec_connected w List no_kwargs
             (ListNamespacedJob.init None None None) st eq_refl Hst).
  unfold trace, result; cbn [fst snd log].
  split; [apply calls_steps|]. repeat (split; [reflexivity|]).
  intros x ->. reflexivity.
Qed.

Lemma C8_list_defaults_witness :
  result (exec world_laptop List no_kwargs (ListNamespacedJob.init None None None))
  = Returned (Some (V1JobList []))
  /\ length (calls (trace (exec world_laptop List no_kwargs
                             (ListNamespacedJob.init None None None)))) = 1.
Proof.
  destruct (C8_list_defaults world_laptop) as (c & Hc & _ & _ & _ & _ & _ & Hres).
  - reflexivity.
  - split; [|rewrite Hc; reflexivity].
    apply Hres. injection Hc as <-. reflexivity.
Defined.

(** ** The order of the steps (C6) *)





(** The same seen on [self]: when no strategy yields a client, the run ends
    with the stored body not merged, although a run-time body was given. *)
Example not_merged_without_client :
  let r := exec world_nowhere Create run_with_b task_a in
  result r = Raised (ConfigException "Invalid kube-config file.")
  /\ self_body (after r) = body_a
  /\ calls (trace r) = [].
Proof. repeat split; vm_compute; reflexivity. Qed.


(** ** The fields that no run writes (C10) *)

Section Frame.

Variable P : task -> Prop.

Lemma keeps_ret {A} (x : A) : keeps P (ret x).
Proof. intros s H. exact H. Qed.

Lemma keeps_raise {A} (e : exn) : keeps P (@raise A e).
Proof. intros s H. exact H. Qed.

Lemma keeps_emit (ev : event) : keeps P (emit ev).
Proof. intros s H. exact H. Qed.

Lemma keeps_modify (f : task -> task) :
  (forall t, P t -> P (f t)) -> keeps P (modify_self f).
Proof. intros Hf s H. apply Hf, H. Qed.

Lemma keeps_bind {A B} (m : M A) (k : A -> M B) :
  keeps P m -> (forall x, keeps P (k x)) -> keeps P (m ≫= k).
Proof.
  intros Hm Hk s H. unfold mbind, M_bind, bind.
  specialize (Hm s H). destruct (m s) as [[x|e] s']; simpl in *.
  - apply Hk, Hm.
  - exact Hm.
Qed.

(** [get_self] hands its reader the very [self] it was started on; the
    rule lets the continuation depend on it. *)
Lemma keeps_get_self {B} (k : task -> M B) :
  (forall t, keeps P (k t)) -> keeps P (get_self ≫= k).
Proof. intros Hk. apply keeps_bind; [intros s H; exact H | exact Hk]. Qed.

Lemma keeps_try_except {A} (m h : M A) (catches : exn -> bool) :
  keeps P m -> keeps P h -> keeps P (try_except m catches h).
Proof.
  intros Hm Hh s H. unfold try_except.
  specialize (Hm s H). destruct (m s) as [[x|e] s']; simpl in *.
  - exact Hm.
  - destruct (catches e); [apply Hh, Hm | exact Hm].
Qed.

(** The three writes of the module go to [client], [body] and
    [kube_kwargs]. *)
Hypothesis P_client : forall c t, P t -> P (set_client c t).
Hypothesis P_body : forall b t, P t -> P (set_body b t).
Hypothesis P_kube_kwargs : forall k t, P t -> P (set_kube_kwargs k t).

Lemma keeps_assign_client (c : api_client) : keeps P (assign_client c).
Proof.
  apply keeps_bind; [apply keeps_emit|]. intros _.
  apply keeps_modify, P_client.
Qed.

Lemma keeps_body_update (r : dict) : keeps P (body_update r).
Proof.
  apply keeps_bind; [apply keeps_emit|]. intros _.
  apply keeps_modify. intros t. apply P_body.
Qed.

Lemma keeps_kube_kwargs_update (r : dict) : keeps P (kube_kwargs_update r).
Proof.
  apply keeps_bind; [apply keeps_emit|]. intros _.
  apply keeps_modify. intros t. apply P_kube_kwargs.
Qed.

Lemma keeps_loader (ev : event) (o : option exn) :
  keeps P (emit ev ;; match o with None => ret tt | Some e => raise e end).
Proof.
  apply keeps_bind; [apply keeps_emit|]. intros _.
  destruct o; [apply keeps_raise | apply keeps_ret].
Qed.

Lemma keeps_connect (w : world) (secret : string) : keeps P (connect w secret).
Proof.
  assert (Hamb : keeps P (connect_ambient w)).
  { apply keeps_bind; [|intros _; apply keeps_assign_client].
    apply keeps_try_except; apply keeps_loader. }
  apply keeps_bind.
  - apply keeps_bind; [apply keeps_emit | intros _; apply keeps_ret].
  - intros [key|]; [|exact Hamb].
    destruct (str_truthy key); [apply keeps_assign_client | exact Hamb].
Qed.

Lemma keeps_invoke (w : world) (m : api_method) (name : option (option string))
    (namespace : string) (body : option dict) (kw : dict) :
  keeps P (invoke w m name namespace body kw).
Proof.
  apply keeps_get_self. intros t. destruct (self_client t) as [c|].
  - apply keeps_bind; [apply keeps_emit|]. intros _.
    destruct (batch_api w _); [apply keeps_raise | apply keeps_ret].
  - apply keeps_raise.
Qed.

Lemma keeps_run (w : world) (v : verb) (a : kwargs) : keeps P (run w v a).
Proof.
  destruct v; unfold run,
    CreateNamespacedJob.run, DeleteNamespacedJob.run, ListNamespacedJob.run,
    PatchNamespacedJob.run, ReadNamespacedJob.run, ReplaceNamespacedJob.run;
    apply keeps_get_self; intros t;
    repeat match goal with
      | |- keeps P (if ?b then _ else _) => destruct b
      | |- keeps P (_ ≫= _) => apply keeps_bind; [|intros ?]
      | |- keeps P (raise _) => apply keeps_raise
      | |- keeps P (mret _) => apply keeps_ret
      | |- keeps P (ret _) => apply keeps_ret
      | |- keeps P (connect _ _) => apply keeps_connect
      | |- keeps P (body_update _) => apply keeps_body_update
      | |- keeps P (kube_kwargs_update _) => apply keeps_kube_kwargs_update
      | |- keeps P (invoke _ _ _ _ _ _) => apply keeps_invoke
      | |- keeps P get_self => intros s H; exact H
      end.
Qed.

End Frame.

(** C10. Whatever the verb, the arguments and the world, and however the
    run ends, the stored name, namespace and name of the secret are after
    the run what they were before; a run writes to [body], [kube_kwargs]
    and [client] and to nothing else. *)
Theorem C10_fixed_fields (w : world) (v : verb) (a : kwargs) (t : task) :
  let t' := after (exec w v a t) in
  self_name t' = self_name t
  /\ self_namespace t' = self_namespace t
  /\ self_kubernetes_api_key_secret t' = self_kubernetes_api_key_secret t.
Proof.
  simpl. unfold after, exec.
  apply (keeps_run
           (fun t' => self_name t' = self_name t
                      /\ self_namespace t' = self_namespace t
                      /\ self_kubernetes_api_key_secret t'
                         = self_kubernetes_api_key_secret t));
    try (intros; assumption).
  simpl. auto.
Qed.

Example overrides_not_stored :
  let r := exec world_laptop Read run_overrides task_read_job in
  (exists c, calls (trace r) = [c]
             /\ kw_name c = Some (Some "other")
             /\ kw_namespace c = "staging")
  /\ self_name (after r) = Some "job"
  /\ self_namespace (after r) = "default"
  /\ self_kubernetes_api_key_secret (after r) = "KUBERNETES_API_KEY".
Proof.
  simpl. split; [eexists|]; repeat split; vm_compute; reflexivity.
Qed.

(** * Further properties of the six methods *)

(** ** Helpers *)

Lemma update_idem (d r : dict) : update (update d r) r = update d r.
Proof.
  apply map_eq; intros k. rewrite !update_lookup. destruct (r !! k); reflexivity.
Qed.

Lemma update_assoc (d r1 r2 : dict) :
  update (update d r1) r2 = update d (update r1 r2).
Proof.
  apply map_eq; intros k. rewrite !update_lookup.
  destruct (r2 !! k); reflexivity.
Qed.

Lemma can_connect_false (w : world) (secret : string) :
  can_connect w secret = false ->
  exists e, resolve_credentials w secret = inl e.
Proof.
  unfold can_connect, resolve_credentials.
  destruct (opt_truthy (secrets w secret)); simpl; [discriminate|].
  destruct (incluster_config w) as [e|]; [|discriminate].
  destruct (is_ConfigException e); simpl; [|eauto].
  destruct (kube_config w); [eauto | discriminate].
Qed.

(** Every run goes one of the three ways. *)
Lemma exec_cases (w : world) (v : verb) (a : kwargs) (t : task) :
  (required_missing v a t = true
   /\ exec w v a t
      = (Raised (ValueError (complaint v a t)), {| self := t; log := [] |}))
  \/ (required_missing v a t = false
      /\ can_connect w (eff_secret a t) = false
      /\ exists e,
          exec w v a t
          = (Raised e, {| self := t; log := probes w (eff_secret a t) |}))
  \/ (required_missing v a t = false
      /\ can_connect w (eff_secret a t) = true
      /\ exists st,
          resolve_credentials w (eff_secret a t) = inr st
          /\ exec w v a t
             = (match batch_api w (the_call v a t (client_of st)) with
                | inl e => Raised e
                | inr r => Returned (if returns_result v then Some r else None)
                end,
                {| self := merged_task v a t (client_of st);
                   log := steps w v a t (client_of st) |})).
Proof.
  destruct (required_missing v a t) eqn:Hreq.
  - left. split; [reflexivity|]. by apply exec_invalid.
  - right. destruct (can_connect w (eff_secret a t)) eqn:Hcan.
    + right. destruct (can_connect_resolve _ _ Hcan) as [st Hst].
      repeat split. exists st. split; [exact Hst|]. by apply exec_connected.
    + left. destruct (can_connect_false _ _ Hcan) as [e He].
      repeat split. exists e. by apply exec_no_credentials.
Qed.

(** The arguments as the body of [run] sees them are the same on the task
    that a run leaves behind. *)
Lemma eff_body_merged (v : verb) (a : kwargs) (t : task) (c : api_client) :
  eff_body a (merged_task v a t c) = eff_body a t.
Proof.
  unfold merged_task, eff_body; simpl. destruct (arg_body a); simpl;
    [reflexivity|]. destruct (needs_body v); [apply update_same | reflexivity].
Qed.

Lemma eff_kube_kwargs_merged (v : verb) (a : kwargs) (t : task)
    (c : api_client) :
  eff_kube_kwargs a (merged_task v a t c) = eff_kube_kwargs a t.
Proof.
  unfold merged_task, eff_kube_kwargs; simpl. destruct (arg_kube_kwargs a);
    simpl; [reflexivity | apply update_same].
Qed.

Lemma required_missing_merged (v : verb) (a : kwargs) (t : task)
    (c : api_client) :
  required_missing v a (merged_task v a t c) = required_missing v a t.
Proof. unfold required_missing. rewrite eff_body_merged. reflexivity. Qed.

Lemma merged_task_again (v : verb) (a : kwargs) (t : task) (c : api_client) :
  merged_task v a (merged_task v a t c) c = merged_task v a t c.
Proof.
  unfold merged_task at 1. rewrite eff_body_merged, eff_kube_kwargs_merged.
  unfold merged_task; simpl. f_equal.
  - destruct (needs_body v); [apply update_idem | reflexivity].
  - apply update_idem.
Qed.

Lemma lookups_app (l1 l2 : list event) :
  lookups (l1 ++ l2) = lookups l1 ++ lookups l2.
Proof.
  induction l1 as [|ev l1 IH]; [reflexivity|].
  destruct ev; simpl; rewrite IH; reflexivity.
Qed.

Lemma lookups_probes (w : world) (secret : string) :
  lookups (probes w secret) = [secret].
Proof.
  unfold probes. simpl. destruct (opt_truthy (secrets w secret)); [reflexivity|].
  simpl. destruct (incluster_config w) as [e|]; [|reflexivity].
  destruct (is_ConfigException e); reflexivity.
Qed.

Lemma lookups_steps (w : world) (v : verb) (a : kwargs) (t : task)
    (c : api_client) :
  lookups (steps w v a t c) = [eff_secret a t].
Proof.
  unfold steps. rewrite lookups_app, lookups_probes.
  destruct (needs_body v); reflexivity.
Qed.

Lemma the_call_merged (v : verb) (a : kwargs) (t : task) (c c' : api_client) :
  the_call v a (merged_task v a t c) c' = the_call v a t c'.
Proof.
  unfold the_call. rewrite eff_body_merged, eff_kube_kwargs_merged.
  f_equal. unfold merged_task; simpl.
  destruct (needs_body v); [|reflexivity]. by rewrite update_idem.
Qed.

Lemma steps_merged (w : world) (v : verb) (a : kwargs) (t : task)
    (c c' : api_client) :
  steps w v a (merged_task v a t c) c' = steps w v a t c'.
Proof.
  unfold steps.
  rewrite the_call_merged, eff_body_merged, eff_kube_kwargs_merged.
  reflexivity.
Qed.

(** ** When the API is reached, and what a failed run leaves *)


(** X2. No run makes more than one API call or more than one secret
    lookup; a run that passes its checks makes exactly one lookup, under
    the name given at run time when there is one and under the stored name
    otherwise. *)
Theorem at_most_one_call (w : world) (v : verb) (a : kwargs) (t : task) :
  let r := exec w v a t in
  length (calls (trace r)) <= 1
  /\ length (lookups (trace r)) <= 1
  /\ (required_missing v a t = false ->
      lookups (trace r)
      = [default_from_attr (arg_kubernetes_api_key_secret a)
                           (self_kubernetes_api_key_secret t)]).
Proof.
  intros r. unfold r.
  destruct (exec_cases w v a t)
    as [[Hreq ->] | [(Hreq & Hcan & e & ->) | (Hreq & Hcan & st & _ & ->)]];
    unfold trace; cbn [snd log].
  - simpl. repeat split; try lia. congruence.
  - rewrite calls_probes, lookups_probes. simpl. repeat split; lia.
  - rewrite calls_steps, lookups_steps. simpl. repeat split; lia.
Qed.

(** ** Running again *)

(** X3. Running a task a second time with the same arguments in the same
    world repeats the first run: the same log, the same result, and the
    task it leaves is the task the first run left. The in-place merges are
    idempotent. *)
Theorem run_twice_same (w : world) (v : verb) (a : kwargs) (t : task) :
  exec w v a (after (exec w v a t)) = exec w v a t.
Proof.
  destruct (exec_cases w v a t)
    as [[Hreq H] | [(Hreq & Hcan & e & H) | (Hreq & Hcan & st & Hst & H)]];
    rewrite H at 1; unfold after; cbn [snd self]; try reflexivity.
  set (c := client_of st).
  assert (Hreq' : required_missing v a (merged_task v a t c) = false)
    by (rewrite required_missing_merged; exact Hreq).
  rewrite (exec_connected w v a (merged_task v a t c) st Hreq' Hst), H.
  fold c. rewrite the_call_merged, steps_merged, merged_task_again.
  reflexivity.
Qed.

(** X4. A run that is given neither a body nor extra keyword arguments
    leaves both stored mappings as they were, however it ends. *)
Theorem no_override_no_merge (w : world) (v : verb) (a : kwargs) (t : task) :
  arg_body a = None ->
  arg_kube_kwargs a = None ->
  let r := exec w v a t in
  self_body (after r) = self_body t
  /\ self_kube_kwargs (after r) = self_kube_kwargs t.
Proof.
  intros Hb Hk r. unfold r.
  destruct (exec_cases w v a t)
    as [[Hreq ->] | [(Hreq & Hcan & e & ->) | (Hreq & Hcan & st & _ & ->)]];
    unfold after; cbn [snd self]; auto.
  unfold merged_task, eff_body, eff_kube_kwargs; simpl. rewrite Hb, Hk; simpl.
  rewrite update_same. destruct (needs_body v); by rewrite ?update_same.
Qed.

Lemma no_override_no_merge_witness :
  self_body (after (exec world_token Create no_kwargs task_a)) = body_a
  /\ self_kube_kwargs (after (exec world_token Create no_kwargs task_a)) = ∅.
Proof.
  apply (no_override_no_merge world_token Create no_kwargs task_a);
    reflexivity.
Defined.

(** X5. A run never removes a key from the stored body or from the stored
    extra keyword arguments, and every entry that the stored body holds
    after the run was stored before or comes from the body given at run
    time. *)
Theorem keys_never_removed (w : world) (v : verb) (a : kwargs) (t : task) :
  let r := exec w v a t in
  dom (self_body t) ⊆ dom (self_body (after r))
  /\ dom (self_kube_kwargs t) ⊆ dom (self_kube_kwargs (after r))
  /\ (forall k x,
        self_body (after r) !! k = Some x ->
        self_body t !! k = Some x
        \/ exists R, arg_body a = Some R /\ R !! k = Some x).
Proof.
  intros r. unfold r.
  destruct (exec_cases w v a t)
    as [[Hreq ->] | [(Hreq & Hcan & e & ->) | (Hreq & Hcan & st & _ & ->)]];
    unfold after; cbn [snd self]; auto.
  unfold merged_task; cbn [self_body self_kube_kwargs].
  split; [|split].
  - destruct (needs_body v); [|reflexivity].
    rewrite update_dom. apply union_subseteq_l.
  - rewrite update_dom. apply union_subseteq_l.
  - intros k x. destruct (needs_body v); [|auto].
    rewrite update_lookup. unfold eff_body.
    destruct (arg_body a) as [R|]; simpl.
    + destruct (R !! k) eqn:HR; [|auto]. intros [= ->]. right. eauto.
    + destruct (self_body t !! k); auto.
Qed.

(** ** A call that fails *)

(** X6. The merges are made before the call and are not undone when the
    call raises: a run whose API call is rejected raises the API's
    exception as it is, and still leaves the client set, the stored body
    merged with the run-time body (for create, patch and replace) and the
    stored extra keyword arguments merged with the run-time ones. *)
Theorem merged_despite_api_error (w : world) (v : verb) (a : kwargs)
    (t : task) (e : exn) :
  required_missing v a t = false ->
  can_connect w (eff_secret a t) = true ->
  (forall c, batch_api w c = inl e) ->
  let r := exec w v a t in
  result r = Raised e
  /\ length (calls (trace r)) = 1
  /\ self_body (after r)
     = (if needs_body v then update (self_body t) (eff_body a t)
        else self_body t)
  /\ self_kube_kwargs (after r)
     = update (self_kube_kwargs t) (eff_kube_kwargs a t)
  /\ self_client (after r) <> None.
Proof.
  intros Hreq Hcan Hapi r. destruct (can_connect_resolve _ _ Hcan) as [st Hst].
  unfold r. rewrite (exec_connected w v a t st Hreq Hst), Hapi.
  unfold result, trace, after; cbn [fst snd log self]. rewrite calls_steps.
  repeat split. discriminate.
Qed.

Lemma merged_despite_api_error_witness :
  result (exec world_conflict Create run_with_b task_a)
  = Raised (ApiException 409 "Conflict")
  /\ self_body (after (exec world_conflict Create run_with_b task_a))
     = update body_a body_b.
Proof.
  destruct (merged_despite_api_error world_conflict Create run_with_b task_a
              (ApiException 409 "Conflict")) as (Hres & _ & Hbody & _).
  - reflexivity.
  - reflexivity.
  - intros c. reflexivity.
  - split; [exact Hres | exact Hbody].
Defined.

(** ** The in-cluster loader *)

(** X7. When the secret lookup yields nothing (or the empty string) and the
    in-cluster loader succeeds, a run that passes its checks never calls
    the kube-config loader: its probes are the lookup and the in-cluster
    loader, and the call is made on the default client. *)
Theorem incluster_success (w : world) (v : verb) (a : kwargs) (t : task) :
  required_missing v a t = false ->
  opt_truthy (secrets w (eff_secret a t)) = false ->
  incluster_config w = None ->
  let r := exec w v a t in
  (EvLoadKubeConfig ∉ trace r)
  /\ (exists rest,
         trace r = [EvSecretGet (eff_secret a t); EvLoadIncluster;
                    EvSetClient BatchV1Api_default] ++ rest)
  /\ self_client (after r) = Some BatchV1Api_default
  /\ exists c, calls (trace r) = [c] /\ call_on c = BatchV1Api_default.
Proof.
  intros Hreq Hsec Hin r.
  assert (Hres : resolve_credentials w (eff_secret a t) = inr InCluster)
    by (unfold resolve_credentials; rewrite Hsec, Hin; reflexivity).
  assert (Hprobes : probes w (eff_secret a t)
                    = [EvSecretGet (eff_secret a t); EvLoadIncluster])
    by (unfold probes; rewrite Hsec, Hin; reflexivity).
  unfold r. rewrite (exec_connected w v a t _ Hreq Hres).
  unfold trace, after; cbn [fst snd log self]. split; [|split; [|split]].
  - intros H. apply (loaders_only_in_probes w v a t _ EvLoadKubeConfig) in H;
      [|auto]. rewrite Hprobes in H.
    repeat (apply elem_of_cons in H as [H|H]; [discriminate H|]).
    by apply elem_of_nil in H.
  - unfold steps. rewrite Hprobes. simpl. eauto.
  - reflexivity.
  - rewrite calls_steps. eauto.
Qed.

Lemma incluster_success_witness :
  (EvLoadKubeConfig ∉ trace (exec world_pod Delete no_kwargs task_job))
  /\ self_client (after (exec world_pod Delete no_kwargs task_job))
     = Some BatchV1Api_default.
Proof.
  destruct (incluster_success world_pod Delete no_kwargs task_job)
    as (Hno & _ & Hc & _).
  - reflexivity.
  - reflexivity.
  - reflexivity.
  - split; [exact Hno | exact Hc].
Defined.

(** X8. The fallback to the kube-config loader is for [ConfigException]
    only: when the in-cluster loader raises anything else, a run that
    passes its checks raises that exception after the lookup and the one
    loader, never tries the kube-config file, makes no call and leaves
    [self] as it was. *)
Theorem other_loader_error_is_final (w : world) (v : verb) (a : kwargs)
    (t : task) (e : exn) :
  required_missing v a t = false ->
  opt_truthy (secrets w (eff_secret a t)) = false ->
  incluster_config w = Some e ->
  is_ConfigException e = false ->
  let r := exec w v a t in
  result r = Raised e
  /\ trace r = [EvSecretGet (eff_secret a t); EvLoadIncluster]
  /\ after r = t.
Proof.
  intros Hreq Hsec Hin He r.
  assert (Hres : resolve_credentials w (eff_secret a t) = inl e)
    by (unfold resolve_credentials; rewrite Hsec, Hin, He; reflexivity).
  unfold r. rewrite (exec_no_credentials w v a t e Hreq Hres).
  unfold probes. rewrite Hsec, Hin, He. auto.
Qed.

Lemma other_loader_error_is_final_witness :
  result (exec world_unreadable Delete no_kwargs task_job)
  = Raised (OtherError "PermissionError" "token")
  /\ trace (exec world_unreadable Delete no_kwargs task_job)
     = [EvSecretGet "KUBERNETES_API_KEY"; EvLoadIncluster].
Proof.
  destruct (other_loader_error_is_final world_unreadable Delete no_kwargs
              task_job (OtherError "PermissionError" "token"))
    as (Hres & Htr & _).
  - reflexivity.
  - reflexivity.
  - reflexivity.
  - reflexivity.
  - split; [exact Hres | exact Htr].
Defined.

(** ** The client of an earlier run *)

(** X9. The client that [self] holds when a run starts plays no part in
    it: the log and the result of the run are the same whatever that
    client is, and a call is always made on a client that the same run has
    set, which is the client that [self] holds afterwards. *)
Theorem client_not_reused (w : world) (v : verb) (a : kwargs) (t : task)
    (c0 : api_client) :
  let r := exec w v a t in
  let r0 := exec w v a (set_client c0 t) in
  result r0 = result r
  /\ trace r0 = trace r
  /\ (forall c, c ∈ calls (trace r) ->
                EvSetClient (call_on c) ∈ trace r
                /\ self_client (after r) = Some (call_on c)
                /\ after r0 = after r).
Proof.
  intros r r0. unfold r, r0.
  destruct (exec_cases w v a t)
    as [[Hreq ->] | [(Hreq & Hcan & _) | (Hreq & Hcan & st & Hst & ->)]].
  - rewrite (exec_invalid w v a (set_client c0 t) Hreq).
    unfold result, trace; cbn [fst snd log].
    split; [reflexivity|]. split; [reflexivity|].
    intros c Hc. by apply elem_of_nil in Hc.
  - destruct (can_connect_false _ _ Hcan) as [e He].
    rewrite (exec_no_credentials w v a (set_client c0 t) e Hreq He).
    rewrite (exec_no_credentials w v a t e Hreq He).
    unfold result, trace; cbn [fst snd log].
    split; [reflexivity|]. split; [reflexivity|].
    intros c Hc. rewrite calls_probes in Hc. by apply elem_of_nil in Hc.
  - rewrite (exec_connected w v a (set_client c0 t) st Hreq Hst).
    unfold result, trace, after; cbn [fst snd log self].
    split; [reflexivity|]. split; [reflexivity|].
    intros c Hc. rewrite calls_steps in Hc.
    apply list_elem_of_singleton in Hc as ->.
    split; [|split; reflexivity].
    unfold steps. apply elem_of_app. right. apply elem_of_cons. by left.
Qed.

(** ** The checks *)

(** X10. An argument given at run time is checked as given, the stored one
    is no fallback for it: an empty body given to create, patch or replace,
    or an empty name given to delete, patch, read or replace, fails the
    check whatever the task stores, before any lookup. *)
Theorem given_empty_is_missing (w : world) (v : verb) (a : kwargs) (t : task) :
  (needs_body v = true /\ arg_body a = Some ∅)
  \/ (needs_name v = true /\ arg_name a = Some "") ->
  let r := exec w v a t in
  (exists msg, result r = Raised (ValueError msg))
  /\ trace r = []
  /\ after r = t.
Proof.
  intros H r.
  assert (Hreq : required_missing v a t = true).
  { unfold required_missing, eff_body, eff_name.
    destruct H as [[-> ->] | [-> ->]]; simpl.
    - reflexivity.
    - apply orb_true_r. }
  unfold r. rewrite (exec_invalid w v a t Hreq).
  unfold result, trace, after; cbn [fst snd log self]. eauto.
Qed.

Lemma given_empty_is_missing_witness :
  dict_truthy (self_body task_replace_a) = true
  /\ result (exec world_token Replace run_empty_body task_replace_a)
     = Raised (ValueError "A dictionary representing a V1Job must be provided.")
  /\ trace (exec world_token Replace run_empty_body task_replace_a) = [].
Proof.
  destruct (given_empty_is_missing world_token Replace run_empty_body
              task_replace_a) as (_ & Htr & _).
  - left. split; reflexivity.
  - split; [reflexivity|]. split; [reflexivity | exact Htr].
Defined.

(** X11. In the methods with a body, the body is checked before the name:
    when the body is empty the error is the one about the body (with a
    message of its own for patch), whatever the name; the error about the
    name is raised only when the body passes. *)
Theorem body_checked_before_name (w : world) (v : verb) (a : kwargs)
    (t : task) :
  needs_body v = true ->
  let r := exec w v a t in
  (dict_truthy (eff_body a t) = false ->
   result r
   = Raised (ValueError
               match v with
               | Patch =>
                   "A dictionary representing a V1Job patch must be provided."
               | _ => "A dictionary representing a V1Job must be provided."
               end))
  /\ (dict_truthy (eff_body a t) = true ->
      needs_name v = true ->
      opt_truthy (eff_name a t) = false ->
      result r
      = Raised (ValueError "The name of a Kubernetes job must be provided.")).
Proof.
  intros Hv r. unfold r. split.
  - intros Hb.
    assert (Hreq : required_missing v a t = true)
      by (unfold required_missing; rewrite Hv, Hb; reflexivity).
    rewrite (exec_invalid w v a t Hreq). unfold complaint.
    rewrite Hv, Hb. reflexivity.
  - intros Hb Hn Hname.
    assert (Hreq : required_missing v a t = true)
      by (unfold required_missing; rewrite Hv, Hb, Hn, Hname; reflexivity).
    rewrite (exec_invalid w v a t Hreq). unfold complaint.
    rewrite Hv, Hb. reflexivity.
Qed.

Lemma body_checked_before_name_witness :
  result (exec world_token Patch no_kwargs
            (PatchNamespacedJob.init None None None None None))
  = Raised (ValueError
              "A dictionary representing a V1Job patch must be provided.").
Proof.
  destruct (body_checked_before_name world_token Patch no_kwargs
              (PatchNamespacedJob.init None None None None None))
    as [H _].
  - reflexivity.
  - apply H. reflexivity.
Defined.

(** ** Constructing, then running *)

(** X12. What the constructor is given is what a run uses when it is given
    the name only: the secret looked up is the constructor's, and the one
    call has the constructor's namespace, its extra keyword arguments and,
    for create, patch and replace, its body. *)
Theorem constructed_then_run (w : world) (v : verb) (n : string) (B : dict)
    (ns : string) (K : dict) (s : string) :
  n ≠ "" ->
  (needs_body v = true -> B ≠ ∅) ->
  can_connect w s = true ->
  let t := init v None (Some B) (Some ns) (Some K) (Some s) in
  let r := exec w v (only_name n) t in
  lookups (trace r) = [s]
  /\ exists c,
      calls (trace r) = [c]
      /\ call_method c = method_of v
      /\ kw_namespace c = ns
      /\ star_kwargs c = K
      /\ kw_body c = (if needs_body v then Some B else None).
Proof.
  intros Hn HB Hcan t r.
  assert (Hs : eff_secret (only_name n) t = s) by (destruct v; reflexivity).
  assert (Hns : eff_namespace (only_name n) t = ns) by (destruct v; reflexivity).
  assert (HK : eff_kube_kwargs (only_name n) t = K)
    by (destruct v; unfold eff_kube_kwargs; simpl; apply or_empty_id).
  assert (Hbody : needs_body v = true ->
                  eff_body (only_name n) t = B /\ self_body t = B)
    by (destruct v; intros [=]; unfold eff_body; simpl;
        rewrite or_empty_id; auto).
  assert (Hreq : required_missing v (only_name n) t = false).
  { unfold required_missing.
    replace (opt_truthy (eff_name (only_name n) t)) with true
      by (symmetry; apply (str_truthy_nonempty n Hn)).
    rewrite andb_false_r, orb_false_r.
    destruct (needs_body v) eqn:Hv; [|reflexivity].
    destruct (Hbody eq_refl) as [-> _].
    rewrite (dict_truthy_nonempty B (HB eq_refl)). reflexivity. }
  rewrite <- Hs in Hcan. destruct (can_connect_resolve _ _ Hcan) as [st Hst].
  unfold r. rewrite (exec_connected w v (only_name n) t st Hreq Hst).
  unfold trace; cbn [snd log]. rewrite lookups_steps, calls_steps, Hs.
  split; [reflexivity|]. eexists. split; [reflexivity|].
  unfold the_call; cbn [call_method kw_namespace star_kwargs kw_body].
  rewrite Hns, HK. repeat split.
  destruct (needs_body v); [|reflexivity].
  destruct (Hbody eq_refl) as [-> ->]. by rewrite update_same.
Qed.

Lemma constructed_then_run_witness :
  exists c,
    calls (trace (exec world_laptop Replace (only_name "job")
                    (init Replace None (Some body_a) (Some "staging")
                          (Some kw_pretty) (Some "K8S")))) = [c]
    /\ kw_namespace c = "staging"
    /\ star_kwargs c = kw_pretty
    /\ kw_body c = Some body_a.
Proof.
  destruct (constructed_then_run world_laptop Replace "job" body_a "staging"
              kw_pretty "K8S") as (_ & c & Hc & _ & Hns & HK & Hb).
  - discriminate.
  - intros _. unfold body_a. apply insert_non_empty.
  - reflexivity.
  - exists c. auto.
Defined.



(** ** From one run to the next *)




(** X15. Extra keyword arguments given to one run reach the call of the
    next: the run that is given them passes them to its call as given, and
    the next run of the task, when it is given none, passes the stored
    mapping merged with them. *)
Theorem kube_kwargs_reach_next_call (w1 w2 : world) (v : verb)
    (a1 a2 : kwargs) (t : task) (R : dict) :
  arg_kube_kwargs a1 = Some R ->
  required_missing v a1 t = false ->
  can_connect w1 (eff_secret a1 t) = true ->
  let t' := after (exec w1 v a1 t) in
  arg_kube_kwargs a2 = None ->
  required_missing v a2 t' = false ->
  can_connect w2 (eff_secret a2 t') = true ->
  (exists c1, calls (trace (exec w1 v a1 t)) = [c1] /\ star_kwargs c1 = R)
  /\ (exists c2, calls (trace (exec w2 v a2 t')) = [c2]
                 /\ star_kwargs c2 = update (self_kube_kwargs t) R).
Proof.
  intros HR Hreq1 Hcan1 t' Hno Hreq2 Hcan2.
  destruct (can_connect_resolve _ _ Hcan1) as [st1 Hst1].
  destruct (can_connect_resolve _ _ Hcan2) as [st2 Hst2].
  assert (Ht' : t' = merged_task v a1 t (client_of st1))
    by (unfold t'; rewrite (exec_connected w1 v a1 t st1 Hreq1 Hst1);
        reflexivity).
  split.
  - rewrite (exec_connected w1 v a1 t st1 Hreq1 Hst1).
    unfold trace; cbn [snd log]. rewrite calls_steps.
    eexists. split; [reflexivity|].
    unfold the_call, eff_kube_kwargs; cbn [star_kwargs]. by rewrite HR.
  - rewrite (exec_connected w2 v a2 t' st2 Hreq2 Hst2).
    unfold trace; cbn [snd log]. rewrite calls_steps.
    eexists. split; [reflexivity|].
    unfold the_call, eff_kube_kwargs; cbn [star_kwargs]. rewrite Hno, Ht'.
    unfold merged_task, eff_kube_kwargs; simpl. by rewrite HR.
Qed.

Lemma kube_kwargs_reach_next_call_witness :
  exists c2,
    calls (trace (exec world_token Delete no_kwargs
                    (after (exec world_token Delete run_dry task_pretty))))
    = [c2]
    /\ star_kwargs c2 = update kw_pretty kw_dry_run.
Proof.
  destruct (kube_kwargs_reach_next_call world_token world_token Delete
              run_dry no_kwargs task_pretty kw_dry_run) as (_ & H);
    try reflexivity.
  exact H.
Defined.

(** X16. Bodies given to successive runs pile up: after a run with body
    [R1] and a run with body [R2], the stored body, which is also the body
    of the second call, is the stored body of the start updated with [R1]
    and then with [R2]; at every key the value of [R2] wins over that of
    [R1], which wins over the stored one. *)
Theorem bodies_accumulate (w1 w2 : world) (v : verb) (a1 a2 : kwargs)
    (t : task) (R1 R2 : dict) :
  needs_body v = true ->
  arg_body a1 = Some R1 ->
  arg_body a2 = Some R2 ->
  required_missing v a1 t = false ->
  can_connect w1 (eff_secret a1 t) = true ->
  let t1 := after (exec w1 v a1 t) in
  required_missing v a2 t1 = false ->
  can_connect w2 (eff_secret a2 t1) = true ->
  let r2 := exec w2 v a2 t1 in
  let E := update (update (self_body t) R1) R2 in
  self_body (after r2) = E
  /\ (exists c, calls (trace r2) = [c] /\ kw_body c = Some E)
  /\ E = update (self_body t) (update R1 R2)
  /\ (forall k,
        E !! k = match R2 !! k with
                 | Some x => Some x
                 | None => match R1 !! k with
                           | Some x => Some x
                           | None => self_body t !! k
                           end
                 end).
Proof.
  intros Hv H1 H2 Hreq1 Hcan1 t1 Hreq2 Hcan2 r2 E.
  destruct (can_connect_resolve _ _ Hcan1) as [st1 Hst1].
  destruct (can_connect_resolve _ _ Hcan2) as [st2 Hst2].
  assert (Ht1 : self_body t1 = update (self_body t) R1).
  { unfold t1. rewrite (exec_connected w1 v a1 t st1 Hreq1 Hst1).
    unfold after, merged_task, eff_body; simpl. by rewrite Hv, H1. }
  unfold r2. rewrite (exec_connected w2 v a2 t1 st2 Hreq2 Hst2).
  unfold trace, after; cbn [snd log self]. rewrite calls_steps.
  split; [|split; [|split]].
  - unfold merged_task, eff_body; simpl. by rewrite Hv, H2, Ht1.
  - eexists. split; [reflexivity|].
    unfold the_call, eff_body; simpl. by rewrite Hv, H2, Ht1.
  - apply update_assoc.
  - intros k. unfold E. rewrite !update_lookup. reflexivity.
Qed.

Lemma bodies_accumulate_witness :
  self_body (after (exec world_token Create run_with_c
                      (after (exec world_token Create run_with_b task_a))))
  = {[ "a" := VInt 3; "b" := VInt 2; "c" := VInt 4 ]}.
Proof.
  destruct (bodies_accumulate world_token world_token Create run_with_b
              run_with_c task_a body_b body_c) as (H & _);
    [reflexivity | reflexivity | reflexivity | reflexivity | reflexivity
    | reflexivity | reflexivity | ].
  rewrite H. reflexivity.
Defined.

(** ** What a call is never given *)

Lemma opt_truthy_some (o : option string) :
  opt_truthy o = true -> exists n, o = Some n /\ n ≠ "".
Proof.
  destruct o as [[|ch n]|]; simpl; try discriminate.
  intros _. eexists. split; [reflexivity | discriminate].
Qed.

(** X17. Whatever call a run makes is the method of its verb, and it is
    never given an empty body or an empty name: create, patch and replace
    call with a non-empty body, delete and read with a name that is a
    non-empty string, and the methods without a body pass none. *)
Theorem call_well_formed (w : world) (v : verb) (a : kwargs) (t : task)
    (c : api_call) :
  c ∈ calls (trace (exec w v a t)) ->
  call_method c = method_of v
  /\ (if needs_body v
      then exists E, kw_body c = Some E /\ E ≠ ∅
      else kw_body c = None)
  /\ (v = Delete \/ v = Read ->
      exists n, kw_name c = Some (Some n) /\ n ≠ "").
Proof.
  destruct (exec_cases w v a t)
    as [[Hreq ->] | [(Hreq & Hcan & e & ->) | (Hreq & Hcan & st & _ & ->)]];
    unfold trace; cbn [snd log].
  - intros H. by apply elem_of_nil in H.
  - rewrite calls_probes. intros H. by apply elem_of_nil in H.
  - rewrite calls_steps. intros H. apply list_elem_of_singleton in H as ->.
    unfold required_missing in Hreq. apply orb_false_elim in Hreq as [Hb Hn].
    split; [reflexivity|]. split.
    + unfold the_call; cbn [kw_body]. destruct (needs_body v); [|reflexivity].
      simpl in Hb. apply negb_false_iff in Hb.
      eexists. split; [reflexivity|]. apply update_nonempty.
      intros Hempty. rewrite Hempty in Hb. discriminate Hb.
    + intros Hv.
      assert (Hname : opt_truthy (eff_name a t) = true)
        by (destruct Hv as [-> | ->]; simpl in Hn;
            by apply negb_false_iff in Hn).
      destruct (opt_truthy_some _ Hname) as (n & Heq & Hne).
      exists n. split; [|exact Hne].
      destruct Hv as [-> | ->]; unfold the_call; cbn [kw_name];
        by rewrite Heq.
Qed.

Lemma call_well_formed_witness :
  exists n,
    kw_name (the_call Delete no_kwargs task_job (BatchV1Api_with "Bearer abc"))
    = Some (Some n)
    /\ n ≠ "".
Proof.
  destruct (call_well_formed world_token Delete no_kwargs task_job
              (the_call Delete no_kwargs task_job
                        (BatchV1Api_with "Bearer abc"))) as (_ & _ & H).
  - apply list_elem_of_singleton. reflexivity.
  - apply H. by left.
Defined.
